(** * Java scope finder: the smallest syntax-tree node enclosing a line

    A shallow embedding of [java_scope_finder.py].  The parser's tree is a
    finitely branching tree of nodes carrying a type label and two
    (row, column) points; the resolver threads a three-key dictionary through
    a pruned pre-order walk; [main] is a sequence of observable steps that
    ends either normally or through [sys.exit]. *)

From Stdlib Require Import ZArith List String Ascii Bool Lia DecimalString.
From Stdlib.Strings Require Import Byte.
Import ListNotations.
Local Open Scope string_scope.
Local Open Scope Z_scope.

(** ** Fallible computations

    Subtracting with a [None] operand raises [TypeError] in Python, so the
    resolver's functions return a [result].  The same type describes what
    the file system and the parser answer. *)

Inductive exn_class : Type :=
| TypeError
| RecursionError
| FileNotFoundError
| IOError
| OtherException.

Record exn : Type := mkExn { exn_class_of : exn_class; exn_text : string }.

Inductive result (A : Type) : Type :=
| Ok (a : A)
| Raised (e : exn).
Arguments Ok {A} a.
Arguments Raised {A} e.

Definition rbind {A B : Type} (r : result A) (k : A -> result B) : result B :=
  match r with
  | Ok a => k a
  | Raised e => Raised e
  end.

Notation "x <- r ;; k" := (rbind r (fun x => k))
  (at level 61, r at next level, right associativity).

(** A [for] loop whose body may raise and which threads one variable. *)
Section ForEach.
Context {A S : Type}.
Variable body : A -> S -> result S.

Fixpoint for_each (xs : list A) (acc : S) : result S :=
  match xs with
  | [] => Ok acc
  | x :: rest => acc' <- body x acc ;; for_each rest acc'
  end.

End ForEach.

(** ** The syntax tree handed over by the parser *)

Local Unset Elimination Schemes.

Inductive Node : Type :=
  mkNode { type : string;
           start_point : Z * Z;
           end_point : Z * Z;
           children : list Node }.

Local Set Elimination Schemes.

(** Induction on a node gives the property for all its children. *)
Section NodeInduction.
Variable P : Node -> Prop.
Hypothesis P_node :
  forall ty sp ep cs, Forall P cs -> P (mkNode ty sp ep cs).

Fixpoint Node_ind (n : Node) : P n :=
  match n with
  | mkNode ty sp ep cs =>
      P_node ty sp ep cs
        ((fix go (l : list Node) : Forall P l :=
            match l with
            | [] => Forall_nil P
            | c :: l' => Forall_cons c (Node_ind c) (go l')
            end) cs)
  end.

End NodeInduction.

(** A parsed tree: [tree.root_node]. *)
Record Tree : Type := mkTree { root_node : Node }.

(** ** The scope dictionary

    The dictionary always has the three keys ['type'] (here [scope_type],
    [type] being the node's label), ['start_line'] and ['end_line']; each
    value is [None] or a proper value. *)

Record Scope : Type :=
  mkScope { scope_type : option string;
            start_line : option Z;
            end_line : option Z }.

(** ** The resolver *)

Definition node_contains_line (node : Node) (line_number : Z) : bool :=
  (fst (start_point node) <=? line_number - 1)
  && (line_number - 1 <=? fst (end_point node)).

(** The dictionary built for the node at hand. *)
Definition current_scope (node : Node) : Scope :=
  {| scope_type := Some (type node);
     start_line := Some (fst (start_point node) + 1);
     end_line := Some (fst (end_point node) + 1) |}.

(** Python's [a - b] on dictionary values. *)
Definition py_sub (a b : option Z) : result Z :=
  match a, b with
  | Some x, Some y => Ok (x - y)
  | _, _ => Raised (mkExn TypeError "unsupported operand type(s) for -")
  end.

(** The update of the best scope so far by a node that contains the line:
    [or] evaluates its right operand only when [start_line] is not [None]. *)
Definition update_scope (node : Node) (smallest_scope : Scope) : result Scope :=
  let cur := current_scope node in
  match start_line smallest_scope with
  | None => Ok cur
  | Some _ =>
      w_cur <- py_sub (end_line cur) (start_line cur) ;;
      w_best <- py_sub (end_line smallest_scope) (start_line smallest_scope) ;;
      Ok (if w_cur <? w_best then cur else smallest_scope)
  end.

Fixpoint find_smallest_enclosing_scope
    (node : Node) (line_number : Z) (smallest_scope : Scope) : result Scope :=
  if node_contains_line node line_number then
    s <- update_scope node smallest_scope ;;
    for_each (fun child acc =>
                find_smallest_enclosing_scope child line_number acc)
             (children node) s
  else Ok smallest_scope.

Definition no_scope : Scope :=
  {| scope_type := None; start_line := None; end_line := None |}.

Definition find_scope (tree : Tree) (line_number : Z) : result Scope :=
  find_smallest_enclosing_scope (root_node tree) line_number no_scope.

(** ** The walk under the interpreter's recursion limit

    Every call of a Python function takes a frame, and the interpreter
    raises [RecursionError] at a call for which no frame is left.  The walk
    makes one call per level of the tree and, inside each, one call of
    [node_contains_line]; [frames] is the number of nested calls still
    allowed where the function is called. *)

Definition recursion_error : exn :=
  mkExn RecursionError "maximum recursion depth exceeded".

Definition call {A : Type} (frames : nat) (body : nat -> result A) : result A :=
  match frames with
  | O => Raised recursion_error
  | S rest => body rest
  end.

Fixpoint find_smallest_enclosing_scope_within
    (frames : nat) (node : Node) (line_number : Z) (smallest_scope : Scope)
  : result Scope :=
  match frames with
  | O => Raised recursion_error
  | S rest =>
      contains <- call rest
                    (fun _ => Ok (node_contains_line node line_number)) ;;
      if contains : bool then
        s <- update_scope node smallest_scope ;;
        for_each (fun child acc =>
                    find_smallest_enclosing_scope_within
                      rest child line_number acc)
                 (children node) s
      else Ok smallest_scope
  end.

Definition find_scope_within (frames : nat) (tree : Tree) (line_number : Z)
  : result Scope :=
  call frames
    (fun rest =>
       find_smallest_enclosing_scope_within
         rest (root_node tree) line_number no_scope).

(** ** The command-line program

    A run of [main] is the list of steps it performs, in order, and the way
    it ends: normally, through [sys.exit], or with an uncaught exception. *)

Inductive event : Type :=
| EvOpen (path : string) (binary : bool)
| EvPrint (text : string)
| EvGetLanguage (name : string)
| EvGetParser (name : string)
| EvParse (code : list byte)
| EvFindScope (line_number : Z).

Inductive outcome (A : Type) : Type :=
| Return (a : A)
| SysExit (code : Z)
| Uncaught (e : exn).
Arguments Return {A} a.
Arguments SysExit {A} code.
Arguments Uncaught {A} e.

Definition proc (A : Type) : Type := (list event * outcome A)%type.

Definition pret {A : Type} (a : A) : proc A := ([], Return a).

Definition pbind {A B : Type} (p : proc A) (k : A -> proc B) : proc B :=
  match p with
  | (tr, Return a) => let (tr', o) := k a in ((tr ++ tr')%list, o)
  | (tr, SysExit c) => (tr, SysExit c)
  | (tr, Uncaught e) => (tr, Uncaught e)
  end.

Notation "x <~ p ;; k" := (pbind p (fun x => k))
  (at level 61, p at next level, right associativity).

Definition emit (e : event) : proc unit := ([e], Return tt).
Definition print (text : string) : proc unit := emit (EvPrint text).
Definition sys_exit {A : Type} (code : Z) : proc A := ([], SysExit code).
Definition raise {A : Type} (e : exn) : proc A := ([], Uncaught e).

Definition lift {A : Type} (r : result A) : proc A :=
  match r with
  | Ok a => pret a
  | Raised e => raise e
  end.

(** The status the operating system sees: 0 after a normal return, the
    argument of [sys.exit], 1 after an uncaught exception. *)
Definition exit_status {A : Type} (p : proc A) : Z :=
  match snd p with
  | Return _ => 0
  | SysExit c => c
  | Uncaught _ => 1
  end.

Definition trace {A : Type} (p : proc A) : list event := fst p.

(** What the program cannot decide: the files and the parser. *)
Record World : Type :=
  mkWorld { open_rb : string -> result (list byte);
            open_text : string -> result (list string);
            parser_parse : list byte -> result Tree }.

(** [str] of an integer, as an f-string prints it. *)
Definition str_int (z : Z) : string := NilZero.string_of_int (Z.to_int z).

Definition str_opt_int (o : option Z) : string :=
  match o with
  | Some z => str_int z
  | None => "None"
  end.

Definition parse_code (w : World) (code : list byte) : proc Tree :=
  _ <~ emit (EvParse code) ;;
  match parser_parse w code with
  | Ok tree => pret tree
  | Raised e =>
      _ <~ print ("Error parsing code: " ++ exn_text e) ;;
      sys_exit 1
  end.

Definition read_file (w : World) (file_path : string)
  : proc (list byte * list string) :=
  let attempt : proc (list byte * list string) :=
    _ <~ emit (EvOpen file_path true) ;;
    code <~ lift (open_rb w file_path) ;;
    _ <~ emit (EvOpen file_path false) ;;
    lines <~ lift (open_text w file_path) ;;
    pret (code, lines) in
  match attempt with
  | (tr, Uncaught e) =>
      match exn_class_of e with
      | FileNotFoundError =>
          _ <~ (tr, Return tt) ;;
          _ <~ print ("Error: File '" ++ file_path ++ "' does not exist.") ;;
          sys_exit 1
      | IOError =>
          _ <~ (tr, Return tt) ;;
          _ <~ print ("Error: Cannot read file '" ++ file_path ++ "'.") ;;
          sys_exit 1
      | _ => (tr, Uncaught e)
      end
  | other => other
  end.

(** [seq[lo:hi]] for a list, with Python's clamping of the bounds. *)
Definition slice_bound (len i : Z) : Z :=
  if i <? 0 then Z.max (i + len) 0 else Z.min i len.

Definition py_slice {A : Type} (l : list A) (lo : Z) (hi : option Z) : list A :=
  let len := Z.of_nat (List.length l) in
  let a := slice_bound len lo in
  let b := match hi with Some h => slice_bound len h | None => len end in
  firstn (Z.to_nat (b - a)) (skipn (Z.to_nat a) l).

Definition display_result (scope : Scope) (lines : list string) : proc unit :=
  match scope_type scope with
  | None => print "No relevant code scope found for the given line number."
  | Some ty =>
      _ <~ print ("Scope Type: " ++ ty) ;;
      _ <~ print ("Start Line: " ++ str_opt_int (start_line scope)) ;;
      _ <~ print ("End Line: " ++ str_opt_int (end_line scope) ++ String "010" "") ;;
      _ <~ print "Code Snippet:" ;;
      lo <~ lift (py_sub (start_line scope) (Some 1)) ;;
      print (String.concat "" (py_slice lines lo (end_line scope)))
  end.

Definition validate_line_number (line_number total_lines : Z) : proc bool :=
  if line_number <=? 0 then
    _ <~ print "Error: Line number must be a positive integer." ;;
    pret false
  else if line_number >? total_lines then
    _ <~ print ("Error: Line number " ++ str_int line_number
                ++ " exceeds total number of lines ("
                ++ str_int total_lines ++ ").") ;;
    pret false
  else pret true.

(** The parsed command line: what [parse_arguments] returns.  [main] below
    is the body of the source's [main] from there on; a command line that
    [argparse] turns away ends the process before it.  [get_language] and
    [get_parser] are steps that succeed. *)
Record Args : Type :=
  mkArgs { file_path : string;
           line_number : Z;
           lang_path : option string }.

Definition main (w : World) (args : Args) : proc unit :=
  cl <~ read_file w (file_path args) ;;
  let (code, lines) := cl : list byte * list string in
  let total_lines := Z.of_nat (List.length lines) in
  valid <~ validate_line_number (line_number args) total_lines ;;
  if negb valid then sys_exit 1
  else
    _ <~ emit (EvGetLanguage "java") ;;
    _ <~ emit (EvGetParser "java") ;;
    tree <~ parse_code w code ;;
    _ <~ emit (EvFindScope (line_number args)) ;;
    scope <~ lift (find_scope tree (line_number args)) ;;
    display_result scope lines.

(** The body of [main] where [frames] nested calls are still allowed at the
    call of [find_scope]; the other calls of [main] nest two deep at most. *)
Definition main_within (frames : nat) (w : World) (args : Args) : proc unit :=
  cl <~ read_file w (file_path args) ;;
  let (code, lines) := cl : list byte * list string in
  let total_lines := Z.of_nat (List.length lines) in
  valid <~ validate_line_number (line_number args) total_lines ;;
  if negb valid then sys_exit 1
  else
    _ <~ emit (EvGetLanguage "java") ;;
    _ <~ emit (EvGetParser "java") ;;
    tree <~ parse_code w code ;;
    _ <~ emit (EvFindScope (line_number args)) ;;
    scope <~ lift (find_scope_within frames tree (line_number args)) ;;
    display_result scope lines.

(** ** Vocabulary of the specification *)

(** The 1-based inclusive span of a node and its width. *)
Definition node_start_line (n : Node) : Z := fst (start_point n) + 1.
Definition node_end_line (n : Node) : Z := fst (end_point n) + 1.
Definition span_width (n : Node) : Z := node_end_line n - node_start_line n.

(** All nodes of a subtree in depth-first pre-order: a node before its
    children, children left to right. *)
Fixpoint preorder (n : Node) : list Node :=
  n :: flat_map preorder (children n).

(** The nodes the pruned walk reaches: a node that does not contain the line
    hides its whole subtree. *)
Fixpoint visited (line_number : Z) (n : Node) : list Node :=
  if node_contains_line n line_number
  then n :: flat_map (visited line_number) (children n)
  else [].

(** The nodes of a tree that contain the line, in pre-order. *)
Definition containing (line_number : Z) (n : Node) : list Node :=
  filter (fun m => node_contains_line m line_number) (preorder n).

(** The nesting invariant: every child's span lies within its parent's. *)
Definition span_within (c p : Node) : bool :=
  (fst (start_point p) <=? fst (start_point c))
  && (fst (end_point c) <=? fst (end_point p)).

Fixpoint nested (n : Node) : bool :=
  forallb (fun c => span_within c n && nested c) (children n).

Definition ordered_span (n : Node) : bool :=
  fst (start_point n) <=? fst (end_point n).

Definition well_formed (n : Node) : bool :=
  nested n && forallb ordered_span (preorder n).

Definition rows_nonneg (n : Node) : bool :=
  forallb (fun m => 0 <=? fst (start_point m)) (preorder n).

(** [n] is the first node of [l] among those of least width. *)
Definition first_of_least_width (l : list Node) (n : Node) : Prop :=
  exists l1 l2,
    l = (l1 ++ n :: l2)%list
    /\ Forall (fun m => span_width n < span_width m) l1
    /\ Forall (fun m => span_width n <= span_width m) l2.

(** A dictionary is coherent when its three values are all [None] or all
    proper values. *)
Definition coherent (s : Scope) : Prop :=
  (scope_type s = None /\ start_line s = None /\ end_line s = None)
  \/ (exists ty a b,
        scope_type s = Some ty /\ start_line s = Some a /\ end_line s = Some b).

(** The two no-match tests of the program. *)
Definition type_is_none (s : Scope) : bool :=
  match scope_type s with None => true | Some _ => false end.
Definition start_line_is_none (s : Scope) : bool :=
  match start_line s with None => true | Some _ => false end.

(** The exhaustive search of the specification: every node of the tree is
    examined in pre-order, and each one that contains the line goes through
    the same update as in the pruned search. *)
Fixpoint exhaustive_search
    (node : Node) (line_number : Z) (smallest_scope : Scope) : result Scope :=
  s <- (if node_contains_line node line_number
        then update_scope node smallest_scope
        else Ok smallest_scope) ;;
  for_each (fun child acc => exhaustive_search child line_number acc)
           (children node) s.

Definition exhaustive_find_scope (tree : Tree) (line_number : Z) : result Scope :=
  exhaustive_search (root_node tree) line_number no_scope.

(** The steps of a run that belong to resolution: invoking the parser and
    walking the tree. *)
Definition is_resolution_step (e : event) : bool :=
  match e with
  | EvGetLanguage _ | EvGetParser _ | EvParse _ | EvFindScope _ => true
  | EvOpen _ _ | EvPrint _ => false
  end.

(** The best node so far, and the selection the update performs on it. *)
Definition scope_of_best (o : option Node) : Scope :=
  match o with
  | None => no_scope
  | Some n => current_scope n
  end.

Definition pick (o : option Node) (n : Node) : option Node :=
  match o with
  | None => Some n
  | Some b => if span_width n <? span_width b then Some n else Some b
  end.

(** The steps of a run up to validation, and from validation to the walk. *)
Definition opened (p : string) : list event := [EvOpen p true; EvOpen p false].

Definition resolving (code : list byte) : list event :=
  [EvGetLanguage "java"; EvGetParser "java"; EvParse code].

(** A run that was turned away: it ended through [sys.exit(1)] and performed
    no step of resolution. *)
Definition rejected_before_resolution (w : World) (args : Args) : Prop :=
  snd (main w args) = SysExit 1
  /\ existsb is_resolution_step (trace (main w args)) = false.

(** The file could not be read: one of the two [open] calls raised. *)
Definition read_fails (w : World) (p : string) : Prop :=
  exists e,
    open_rb w p = Raised e
    \/ (exists code, open_rb w p = Ok code /\ open_text w p = Raised e).

(** The width [end_line - start_line] of a dictionary, when both values are
    set. *)
Definition scope_width (s : Scope) : option Z :=
  match start_line s, end_line s with
  | Some a, Some b => Some (b - a)
  | _, _ => None
  end.

(** [s'] is [s] itself or a dictionary of strictly smaller width. *)
Definition kept_or_narrower (s s' : Scope) : Prop :=
  s' = s
  \/ exists w w', scope_width s = Some w /\ scope_width s' = Some w' /\ w' < w.

(** The line lies in the 1-based inclusive span of the node. *)
Definition in_span (n : Node) (L : Z) : Prop :=
  node_start_line n <= L <= node_end_line n.

Definition in_span_b (n : Node) (L : Z) : bool :=
  (node_start_line n <=? L) && (L <=? node_end_line n).

(** The nodes met by a pre-order traversal that skips the subtree of a node
    whose span does not hold the line. *)
Fixpoint pruned_preorder (L : Z) (n : Node) : list Node :=
  if in_span_b n L
  then n :: flat_map (pruned_preorder L) (children n)
  else [].

(** The returned match is the dictionary of a node of the tree whose span
    holds the line and whose width [end_line - start_line] is least among
    the nodes of the tree whose span holds the line; none of its own
    descendants whose span holds the line is narrower. *)
Definition least_width_match (t : Tree) (L : Z) : Prop :=
  exists n a b,
    In n (preorder (root_node t))
    /\ a = fst (start_point n) + 1
    /\ b = fst (end_point n) + 1
    /\ find_scope t L
       = Ok {| scope_type := Some (type n);
               start_line := Some a; end_line := Some b |}
    /\ a <= L <= b
    /\ (forall m, In m (preorder (root_node t)) -> in_span m L ->
                  b - a <= node_end_line m - node_start_line m)
    /\ (forall d, In d (preorder n) -> in_span d L ->
                  ~ node_end_line d - node_start_line d < b - a).

(** The frames a call of the walk on a node needs: one for itself, one for
    its call of [node_contains_line], and what its children need when the
    node contains the line. *)
Fixpoint frames_needed (L : Z) (n : Node) : nat :=
  S (if node_contains_line n L
     then Nat.max 1 (list_max (map (frames_needed L) (children n)))
     else 1%nat).

(** The claim that [find_scope] returns whatever the tree and the line. *)
Definition returns_for_every_tree (frames : nat) : Prop :=
  forall t L, exists s, find_scope_within frames t L = Ok s.

(** ** Sample trees *)

Definition leaf (ty : string) (s e : Z) : Node := mkNode ty (s, 0) (e, 0) [].

(** The scenario of the specification: root [1,20], class [2,19],
    method [5,10], if-statement [7,9] (rows are one less). *)
Definition sample_tree : Tree :=
  mkTree
    (mkNode "program" (0, 0) (19, 0)
       [mkNode "class_declaration" (1, 0) (18, 1)
          [mkNode "method_declaration" (4, 4) (9, 5)
             [leaf "if_statement" 6 8]]]).

(** A block whose span equals that of its single statement. *)
Definition tie_tree : Tree :=
  mkTree
    (mkNode "program" (0, 0) (9, 0)
       [mkNode "block" (3, 0) (4, 1) [leaf "expression_statement" 3 4];
        leaf "line_comment" 6 6]).

(** A chain of [d] nodes above a leaf, all on the first line. *)
Fixpoint chain (d : nat) : Node :=
  match d with
  | O => leaf "p" 0 0
  | S k => mkNode "p" (0, 0) (0, 0) [chain k]
  end.

(** An ill-formed tree: the second-level node [4,4] sits under a node
    spanning [12,13]. *)
Definition stray_tree : Tree :=
  mkTree
    (mkNode "program" (0, 0) (9, 0)
       [mkNode "outer" (11, 0) (12, 0) [leaf "hidden" 4 4];
        leaf "shown" 4 4]).

(** ** Sample runs *)

Definition sample_lines : list string :=
  ["class A {}" ++ String "010" ""; "// end"].

Definition sample_code : list byte :=
  list_byte_of_string (String.concat "" sample_lines).

Definition small_tree : Tree :=
  mkTree
    (mkNode "program" (0, 0) (1, 6)
       [leaf "class_declaration" 0 0; leaf "line_comment" 1 1]).

Definition sample_world : World :=
  {| open_rb := fun _ => Ok sample_code;
     open_text := fun _ => Ok sample_lines;
     parser_parse := fun _ => Ok small_tree |}.

Definition broken_parser_world : World :=
  {| open_rb := fun _ => Ok sample_code;
     open_text := fun _ => Ok sample_lines;
     parser_parse := fun _ => Raised (mkExn OtherException "parse failed") |}.

Definition missing_file_world : World :=
  {| open_rb := fun _ => Raised (mkExn FileNotFoundError "No such file");
     open_text := fun _ => Raised (mkExn FileNotFoundError "No such file");
     parser_parse := fun _ => Ok small_tree |}.

(** The parser's tree stops short of the last line of the file. *)
Definition short_tree_world : World :=
  {| open_rb := fun _ => Ok sample_code;
     open_text := fun _ => Ok sample_lines;
     parser_parse := fun _ => Ok (mkTree (leaf "program" 0 0)) |}.

Definition unreadable_file_world : World :=
  {| open_rb := fun _ => Raised (mkExn IOError "Permission denied");
     open_text := fun _ => Raised (mkExn IOError "Permission denied");
     parser_parse := fun _ => Ok small_tree |}.

Definition empty_file_world : World :=
  {| open_rb := fun _ => Ok [];
     open_text := fun _ => Ok [];
     parser_parse := fun _ => Ok (mkTree (leaf "program" 0 0)) |}.

Definition sample_args (L : Z) : Args :=
  {| file_path := "A.java"; line_number := L; lang_path := None |}.

(** * Properties *)

(** ** Unfolding equations *)

Lemma find_smallest_enclosing_scope_eq (node : Node) (L : Z) (s : Scope) :
  find_smallest_enclosing_scope node L s =
  if node_contains_line node L then
    s' <- update_scope node s ;;
    for_each (fun child acc => find_smallest_enclosing_scope child L acc)
             (children node) s'
  else Ok s.
Proof. destruct node; reflexivity. Qed.

Lemma exhaustive_search_eq (node : Node) (L : Z) (s : Scope) :
  exhaustive_search node L s =
  (s' <- (if node_contains_line node L then update_scope node s else Ok s) ;;
   for_each (fun child acc => exhaustive_search child L acc)
            (children node) s').
Proof. destruct node; reflexivity. Qed.

Lemma preorder_eq (n : Node) :
  preorder n = n :: flat_map preorder (children n).
Proof. destruct n; reflexivity. Qed.

Lemma visited_eq (L : Z) (n : Node) :
  visited L n =
  if node_contains_line n L then n :: flat_map (visited L) (children n) else [].
Proof. destruct n; reflexivity. Qed.

Lemma nested_eq (n : Node) :
  nested n = forallb (fun c => span_within c n && nested c) (children n).
Proof. destruct n; reflexivity. Qed.

Ltac spans :=
  unfold span_width, node_end_line, node_start_line, node_contains_line,
    span_within in *.

(** ** The walk as a fold over the visited nodes *)

Lemma update_scope_best (o : option Node) (n : Node) :
  update_scope n (scope_of_best o) = Ok (scope_of_best (pick o n)).
Proof.
  destruct o as [b|]; [|reflexivity].
  unfold update_scope, pick, span_width, node_end_line, node_start_line; simpl.
  destruct (_ <? _); reflexivity.
Qed.

Lemma for_each_visited (L : Z) (cs : list Node) :
  Forall (fun c => forall o,
            find_smallest_enclosing_scope c L (scope_of_best o)
            = Ok (scope_of_best (fold_left pick (visited L c) o))) cs ->
  forall o,
    for_each (fun c acc => find_smallest_enclosing_scope c L acc) cs
             (scope_of_best o)
    = Ok (scope_of_best (fold_left pick (flat_map (visited L) cs) o)).
Proof.
  induction 1 as [|c cs Hc _ IH]; intros o; simpl; [reflexivity|].
  rewrite Hc; simpl. rewrite IH, fold_left_app. reflexivity.
Qed.

Lemma find_visited (n : Node) (L : Z) :
  forall o,
    find_smallest_enclosing_scope n L (scope_of_best o)
    = Ok (scope_of_best (fold_left pick (visited L n) o)).
Proof.
  induction n as [ty sp ep cs IH] using Node_ind; intros o.
  rewrite find_smallest_enclosing_scope_eq, visited_eq.
  destruct (node_contains_line _ L); [|reflexivity].
  rewrite update_scope_best; simpl.
  apply (for_each_visited L cs IH).
Qed.

Lemma find_scope_fold (t : Tree) (L : Z) :
  find_scope t L
  = Ok (scope_of_best (fold_left pick (visited L (root_node t)) None)).
Proof. apply (find_visited (root_node t) L None). Qed.

(** ** What the fold selects *)

Lemma fold_pick_keep (n : Node) (l : list Node) :
  Forall (fun m => span_width n <= span_width m) l ->
  fold_left pick l (Some n) = Some n.
Proof.
  induction 1 as [|m l Hm _ IH]; simpl; [reflexivity|].
  destruct (Z.ltb_spec (span_width m) (span_width n)); [lia|exact IH].
Qed.

Lemma fold_pick_above (n : Node) (l : list Node) :
  Forall (fun m => span_width n < span_width m) l ->
  forall o,
    (forall b, o = Some b -> span_width n < span_width b) ->
    forall b, fold_left pick l o = Some b -> span_width n < span_width b.
Proof.
  induction 1 as [|m l Hm _ IH]; intros o Ho b; simpl; [apply Ho|].
  apply IH. intros c Hc. destruct o as [a|]; simpl in Hc.
  - destruct (_ <? _); injection Hc as <-; [exact Hm|apply Ho; reflexivity].
  - injection Hc as <-; exact Hm.
Qed.

Lemma first_fold_pick (l : list Node) (n : Node) :
  first_of_least_width l n -> fold_left pick l None = Some n.
Proof.
  intros (l1 & l2 & -> & H1 & H2).
  rewrite fold_left_app; simpl.
  assert (Hn : pick (fold_left pick l1 None) n = Some n).
  { destruct (fold_left pick l1 None) as [b|] eqn:E; [|reflexivity].
    simpl. pose proof (fold_pick_above n l1 H1 None) as Hb.
    assert (span_width n < span_width b) by (apply Hb; [discriminate|exact E]).
    destruct (Z.ltb_spec (span_width n) (span_width b)); [reflexivity|lia]. }
  rewrite Hn. apply fold_pick_keep, H2.
Qed.

Lemma fold_pick_first (l : list Node) :
  forall b r, fold_left pick l (Some b) = Some r ->
              first_of_least_width (b :: l) r.
Proof.
  induction l as [|a l IH]; intros b r; simpl.
  - intros [= <-]. exists [], []. repeat split; constructor.
  - destruct (Z.ltb_spec (span_width a) (span_width b)) as [Hlt|Hge]; intros E.
    + destruct (IH _ _ E) as (l1 & l2 & El & H1 & H2).
      exists (b :: l1), l2. split; [simpl; rewrite El; reflexivity|].
      split; [|exact H2]. constructor; [|exact H1].
      destruct l1 as [|x l1]; simpl in El; injection El as <- _.
      * exact Hlt.
      * inversion H1; subst; lia.
    + destruct (IH _ _ E) as (l1 & l2 & El & H1 & H2).
      destruct l1 as [|x l1]; simpl in El; injection El as <- El.
      * exists [], (a :: l). subst l2. repeat split; constructor; [lia|exact H2].
      * exists (b :: a :: l1), l2. subst l. split; [reflexivity|].
        split; [|exact H2]. inversion H1; subst.
        constructor; [assumption|]. constructor; [lia|assumption].
Qed.

Lemma fold_pick_nonempty (a : Node) (l : list Node) :
  exists r, fold_left pick (a :: l) None = Some r
            /\ first_of_least_width (a :: l) r.
Proof.
  simpl.
  assert (H : forall b, exists r, fold_left pick l (Some b) = Some r).
  { induction l as [|x l IH]; intros b; simpl; [eauto|].
    destruct (_ <? _); apply IH. }
  destruct (H a) as [r Hr]. exists r. split; [exact Hr|].
  apply fold_pick_first, Hr.
Qed.

Lemma fold_pick_result (l : list Node) (r : Node) :
  fold_left pick l None = Some r -> first_of_least_width l r.
Proof.
  destruct l as [|a l]; simpl; [discriminate|]. apply fold_pick_first.
Qed.

Lemma fold_pick_none (l : list Node) :
  fold_left pick l None = None -> l = [].
Proof.
  destruct l as [|a l]; [reflexivity|]. intros E.
  destruct (fold_pick_nonempty a l) as (r & Hr & _). congruence.
Qed.

Lemma first_of_least_width_in (l : list Node) (n : Node) :
  first_of_least_width l n -> In n l.
Proof.
  intros (l1 & l2 & -> & _). apply in_or_app. right. left. reflexivity.
Qed.

Lemma first_of_least_width_least (l : list Node) (n m : Node) :
  first_of_least_width l n -> In m l -> span_width n <= span_width m.
Proof.
  intros (l1 & l2 & -> & H1 & H2) Hm.
  rewrite Forall_forall in H1, H2.
  apply in_app_or in Hm. destruct Hm as [Hm|[<-|Hm]].
  - specialize (H1 _ Hm). lia.
  - lia.
  - apply H2, Hm.
Qed.

(** ** Pre-order, visited nodes and the nesting invariant *)

Lemma filter_flat_map {A B : Type} (p : B -> bool) (g : A -> list B)
      (l : list A) :
  filter p (flat_map g l) = flat_map (fun x => filter p (g x)) l.
Proof.
  induction l as [|x l IH]; simpl; [reflexivity|].
  rewrite filter_app, IH. reflexivity.
Qed.

Lemma flat_map_ext_Forall {A B : Type} (f g : A -> list B) (l : list A) :
  Forall (fun x => f x = g x) l -> flat_map f l = flat_map g l.
Proof.
  induction 1 as [|x l Hx _ IH]; simpl; [reflexivity|].
  rewrite Hx, IH. reflexivity.
Qed.

Lemma filter_none {A : Type} (p : A -> bool) (l : list A) :
  (forall x, In x l -> p x = false) -> filter p l = [].
Proof.
  induction l as [|x l IH]; intros H; simpl; [reflexivity|].
  rewrite (H x (or_introl eq_refl)). apply IH. intros y Hy. apply H. right.
  exact Hy.
Qed.

Lemma preorder_self (n : Node) : In n (preorder n).
Proof. rewrite preorder_eq. left. reflexivity. Qed.

Lemma preorder_trans (r : Node) :
  forall n d, In n (preorder r) -> In d (preorder n) -> In d (preorder r).
Proof.
  induction r as [ty sp ep cs IH] using Node_ind; intros n d Hn Hd.
  rewrite preorder_eq in Hn. destruct Hn as [<-|Hn]; [exact Hd|].
  rewrite preorder_eq. right. simpl in *.
  apply in_flat_map in Hn. destruct Hn as (c & Hc & Hn).
  apply in_flat_map. exists c. split; [exact Hc|].
  rewrite Forall_forall in IH. apply (IH c Hc n d Hn Hd).
Qed.

Lemma visited_sound (L : Z) (r : Node) :
  forall n, In n (visited L r) ->
            In n (preorder r) /\ node_contains_line n L = true.
Proof.
  induction r as [ty sp ep cs IH] using Node_ind; intros n Hn.
  rewrite visited_eq in Hn. rewrite preorder_eq.
  destruct (node_contains_line _ L) eqn:E; [|contradiction].
  destruct Hn as [<-|Hn]; [split; [left; reflexivity|exact E]|].
  simpl in *. apply in_flat_map in Hn. destruct Hn as (c & Hc & Hn).
  rewrite Forall_forall in IH. destruct (IH c Hc n Hn) as [Hp Hl].
  split; [|exact Hl]. right. apply in_flat_map. exists c. auto.
Qed.

Lemma span_within_refl (n : Node) : span_within n n = true.
Proof. spans. apply andb_true_intro. split; apply Z.leb_refl. Qed.

Lemma span_within_trans (a b c : Node) :
  span_within a b = true -> span_within b c = true -> span_within a c = true.
Proof.
  spans. rewrite !andb_true_iff, !Z.leb_le. lia.
Qed.

Lemma contains_up (m n : Node) (L : Z) :
  span_within m n = true ->
  node_contains_line m L = true -> node_contains_line n L = true.
Proof.
  spans. rewrite !andb_true_iff, !Z.leb_le. lia.
Qed.

Lemma node_contains_line_iff (n : Node) (L : Z) :
  node_contains_line n L = true
  <-> node_start_line n <= L <= node_end_line n.
Proof.
  spans. rewrite andb_true_iff, !Z.leb_le. lia.
Qed.

Lemma nested_children (n : Node) :
  nested n = true ->
  Forall (fun c => span_within c n = true /\ nested c = true) (children n).
Proof.
  rewrite nested_eq, forallb_forall, Forall_forall. intros H c Hc.
  apply andb_true_iff, H, Hc.
Qed.

Lemma nested_preorder_within (n : Node) :
  nested n = true -> forall m, In m (preorder n) -> span_within m n = true.
Proof.
  induction n as [ty sp ep cs IH] using Node_ind; intros Hn m Hm.
  rewrite preorder_eq in Hm. destruct Hm as [<-|Hm]; [apply span_within_refl|].
  simpl in Hm. apply in_flat_map in Hm. destruct Hm as (c & Hc & Hm).
  pose proof (nested_children _ Hn) as Hcs. simpl in Hcs.
  rewrite Forall_forall in IH, Hcs. destruct (Hcs c Hc) as [Hw Hnc].
  eapply span_within_trans; [apply (IH c Hc Hnc m Hm)|exact Hw].
Qed.

Lemma nested_outside (n : Node) (L : Z) :
  nested n = true -> node_contains_line n L = false ->
  forall m, In m (preorder n) -> node_contains_line m L = false.
Proof.
  intros Hn Hout m Hm.
  destruct (node_contains_line m L) eqn:E; [|reflexivity].
  rewrite (contains_up m n L (nested_preorder_within n Hn m Hm) E) in Hout.
  discriminate.
Qed.

Lemma visited_containing (L : Z) (n : Node) :
  nested n = true -> visited L n = containing L n.
Proof.
  induction n as [ty sp ep cs IH] using Node_ind; intros Hn.
  unfold containing. rewrite visited_eq, preorder_eq.
  cbn [filter]. destruct (node_contains_line _ L) eqn:E.
  - f_equal. cbn [children]. rewrite filter_flat_map.
    apply flat_map_ext_Forall.
    pose proof (nested_children _ Hn) as Hcs. cbn [children] in Hcs.
    rewrite Forall_forall in *. intros c Hc.
    apply (IH c Hc). apply (Hcs c Hc).
  - symmetry. apply filter_none. intros m Hm.
    apply (nested_outside _ L Hn E). rewrite preorder_eq. right. exact Hm.
Qed.

Lemma containing_iff (L : Z) (r n : Node) :
  In n (containing L r) <-> In n (preorder r) /\ node_contains_line n L = true.
Proof. unfold containing. apply filter_In. Qed.

Lemma find_scope_cases (t : Tree) (L : Z) :
  (node_contains_line (root_node t) L = false /\ find_scope t L = Ok no_scope)
  \/ (node_contains_line (root_node t) L = true
      /\ exists n, find_scope t L = Ok (current_scope n)
                   /\ first_of_least_width (visited L (root_node t)) n).
Proof.
  rewrite find_scope_fold, (visited_eq L (root_node t)).
  destruct (node_contains_line (root_node t) L); [right|left; auto].
  split; [reflexivity|].
  destruct (fold_pick_nonempty (root_node t)
              (flat_map (visited L) (children (root_node t)))) as (r & E & F).
  exists r. rewrite E. auto.
Qed.

Lemma find_scope_outside (t : Tree) (L : Z) :
  node_contains_line (root_node t) L = false -> find_scope t L = Ok no_scope.
Proof.
  intros E. destruct (find_scope_cases t L) as [[_ F]|[F _]];
    [exact F|congruence].
Qed.

Lemma find_scope_inside (t : Tree) (L : Z) :
  node_contains_line (root_node t) L = true ->
  exists n, In n (preorder (root_node t))
            /\ find_scope t L = Ok (current_scope n).
Proof.
  intros E.
  destruct (find_scope_cases t L) as [[F _]|(_ & n & F & Hfirst)];
    [congruence|].
  exists n. split; [|exact F].
  apply (visited_sound L), first_of_least_width_in, Hfirst.
Qed.

(** ** Pruned and exhaustive search *)

Lemma for_each_ext (f g : Node -> Scope -> result Scope) (cs : list Node) :
  Forall (fun c => forall acc, f c acc = g c acc) cs ->
  forall acc, for_each f cs acc = for_each g cs acc.
Proof.
  induction 1 as [|c cs Hc _ IH]; intros acc; simpl; [reflexivity|].
  rewrite Hc. destruct (g c acc); simpl; [apply IH|reflexivity].
Qed.

Lemma for_each_skip (f : Node -> Scope -> result Scope) (cs : list Node) :
  Forall (fun c => forall acc, f c acc = Ok acc) cs ->
  forall acc, for_each f cs acc = Ok acc.
Proof.
  induction 1 as [|c cs Hc _ IH]; intros acc; simpl; [reflexivity|].
  rewrite Hc. simpl. apply IH.
Qed.

Lemma pruned_is_exhaustive (n : Node) (L : Z) :
  nested n = true ->
  forall s, find_smallest_enclosing_scope n L s = exhaustive_search n L s.
Proof.
  induction n as [ty sp ep cs IH] using Node_ind; intros Hn s.
  rewrite find_smallest_enclosing_scope_eq, exhaustive_search_eq.
  pose proof (nested_children _ Hn) as Hcs. cbn [children] in *.
  destruct (node_contains_line _ L) eqn:E.
  - destruct (update_scope _ s) as [s'|e]; simpl; [|reflexivity].
    apply for_each_ext. rewrite Forall_forall in *. intros c Hc acc.
    apply (IH c Hc), (Hcs c Hc).
  - simpl. symmetry. apply for_each_skip.
    rewrite Forall_forall in *. intros c Hc acc.
    destruct (Hcs c Hc) as [Hw Hnc]. rewrite <- (IH c Hc Hnc).
    rewrite find_smallest_enclosing_scope_eq.
    destruct (node_contains_line c L) eqn:Ec; [|reflexivity].
    rewrite (contains_up _ _ _ Hw Ec) in E. discriminate.
Qed.

(** ** Coherence of the dictionary *)

Lemma coherent_scope_of_best (o : option Node) : coherent (scope_of_best o).
Proof.
  destruct o as [n|]; [right|left]; simpl; eauto 6.
Qed.

Lemma update_scope_coherent (n : Node) (s : Scope) :
  coherent s -> exists s', update_scope n s = Ok s' /\ coherent s'.
Proof.
  intros [(_ & Hs & _)|(ty & a & b & Ht & Hs & He)]; unfold update_scope.
  - rewrite Hs. exists (current_scope n). split; [reflexivity|].
    apply (coherent_scope_of_best (Some n)).
  - rewrite Hs, He. simpl. destruct (_ <? _); eexists; split; try reflexivity.
    + apply (coherent_scope_of_best (Some n)).
    + right. eauto 6.
Qed.

Lemma find_preserves_coherent (n : Node) (L : Z) :
  forall s, coherent s ->
            exists s', find_smallest_enclosing_scope n L s = Ok s'
                       /\ coherent s'.
Proof.
  induction n as [ty sp ep cs IH] using Node_ind; intros s Hs.
  rewrite find_smallest_enclosing_scope_eq. cbn [children].
  destruct (node_contains_line _ L); [|eauto].
  destruct (update_scope_coherent (mkNode ty sp ep cs) s Hs) as (s1 & -> & H1).
  simpl. clear s Hs. revert s1 H1.
  induction IH as [|c cs Hc _ IHcs]; intros s Hs; simpl; [eauto|].
  destruct (Hc s Hs) as (s2 & -> & H2). simpl. apply IHcs, H2.
Qed.

Lemma coherent_tests_agree (s : Scope) :
  coherent s -> type_is_none s = start_line_is_none s.
Proof.
  unfold type_is_none, start_line_is_none.
  intros [(-> & -> & _)|(ty & a & b & -> & -> & _)]; reflexivity.
Qed.

(** ** Runs of the command-line program *)

Lemma read_file_ok (w : World) (p : string) (code : list byte)
      (lines : list string) :
  open_rb w p = Ok code -> open_text w p = Ok lines ->
  read_file w p = (opened p, Return (code, lines)).
Proof.
  intros Hb Ht. unfold read_file. rewrite Hb, Ht. reflexivity.
Qed.

Lemma read_file_raises (w : World) (p : string) (e : exn) :
  open_rb w p = Raised e
  \/ (exists code, open_rb w p = Ok code /\ open_text w p = Raised e) ->
  exists tr,
    read_file w p
    = (tr, match exn_class_of e with
           | FileNotFoundError | IOError => SysExit 1
           | _ => Uncaught e
           end).
Proof.
  intros [Hb|(code & Hb & Ht)]; unfold read_file;
    rewrite Hb; try rewrite Ht; cbn; destruct (exn_class_of e); cbn; eauto.
Qed.

Lemma validate_nonpositive (L total : Z) :
  L <= 0 ->
  validate_line_number L total
  = ([EvPrint "Error: Line number must be a positive integer."], Return false).
Proof.
  intros H. unfold validate_line_number.
  destruct (Z.leb_spec L 0); [reflexivity|lia].
Qed.

Lemma validate_beyond (L total : Z) :
  0 < L -> total < L ->
  validate_line_number L total
  = ([EvPrint ("Error: Line number " ++ str_int L
               ++ " exceeds total number of lines ("
               ++ str_int total ++ ").")], Return false).
Proof.
  intros H0 H1. unfold validate_line_number. rewrite Z.gtb_ltb.
  destruct (Z.leb_spec L 0); [lia|].
  destruct (Z.ltb_spec total L); [reflexivity|lia].
Qed.

Lemma validate_accepts (L total : Z) :
  0 < L <= total -> validate_line_number L total = ([], Return true).
Proof.
  intros H. unfold validate_line_number. rewrite Z.gtb_ltb.
  destruct (Z.leb_spec L 0); [lia|].
  destruct (Z.ltb_spec total L); [lia|reflexivity].
Qed.

Lemma validate_rejects (L total : Z) :
  L <= 0 \/ total < L ->
  exists msg, validate_line_number L total = ([EvPrint msg], Return false).
Proof.
  intros H. destruct (Z.leb_spec L 0).
  - eexists. apply validate_nonpositive. assumption.
  - eexists. apply validate_beyond; lia.
Qed.

Lemma main_read_fails (w : World) (args : Args) :
  read_fails w (file_path args) ->
  exit_status (main w args) = 1
  /\ existsb is_resolution_step (trace (main w args)) = false.
Proof.
  intros (e & Hraise).
  pose proof (read_file_raises w _ e Hraise) as [tr Hr].
  assert (Htr : existsb is_resolution_step tr = false).
  { revert Hr. unfold read_file.
    destruct Hraise as [Hb|(code & Hb & Ht)]; rewrite Hb; try rewrite Ht; cbn;
      destruct (exn_class_of e); cbn; intros [= <-]; reflexivity. }
  unfold main. rewrite Hr.
  destruct (exn_class_of e); split; first [reflexivity|exact Htr].
Qed.

Lemma main_rejected (w : World) (args : Args) (code : list byte)
      (lines : list string) (msg : string) :
  open_rb w (file_path args) = Ok code ->
  open_text w (file_path args) = Ok lines ->
  validate_line_number (line_number args) (Z.of_nat (List.length lines))
  = ([EvPrint msg], Return false) ->
  main w args = ((opened (file_path args) ++ [EvPrint msg])%list, SysExit 1).
Proof.
  intros Hb Ht Hv. unfold main.
  rewrite (read_file_ok _ _ _ _ Hb Ht). cbn [pbind]. rewrite Hv. reflexivity.
Qed.

Lemma main_parse_fails (w : World) (args : Args) (code : list byte)
      (lines : list string) (e : exn) :
  open_rb w (file_path args) = Ok code ->
  open_text w (file_path args) = Ok lines ->
  0 < line_number args <= Z.of_nat (List.length lines) ->
  parser_parse w code = Raised e ->
  main w args
  = ((opened (file_path args) ++ resolving code
        ++ [EvPrint ("Error parsing code: " ++ exn_text e)])%list,
     SysExit 1).
Proof.
  intros Hb Ht Hv Hp. unfold main.
  rewrite (read_file_ok _ _ _ _ Hb Ht). cbn [pbind].
  rewrite (validate_accepts _ _ Hv). unfold parse_code. rewrite Hp.
  reflexivity.
Qed.

Lemma main_resolves (w : World) (args : Args) (code : list byte)
      (lines : list string) (tree : Tree) :
  open_rb w (file_path args) = Ok code ->
  open_text w (file_path args) = Ok lines ->
  0 < line_number args <= Z.of_nat (List.length lines) ->
  parser_parse w code = Ok tree ->
  main w args
  = let steps := (opened (file_path args) ++ resolving code
                    ++ [EvFindScope (line_number args)])%list in
    match find_scope tree (line_number args) with
    | Ok scope =>
        let (tr, o) := display_result scope lines in ((steps ++ tr)%list, o)
    | Raised e => (steps, Uncaught e)
    end.
Proof.
  intros Hb Ht Hv Hp. unfold main.
  rewrite (read_file_ok _ _ _ _ Hb Ht). cbn [pbind].
  rewrite (validate_accepts _ _ Hv). unfold parse_code. rewrite Hp.
  cbn -[find_scope display_result].
  destruct (find_scope tree (line_number args)) as [s|e]; cbn.
  - destruct (display_result s lines) as [tr o]. reflexivity.
  - reflexivity.
Qed.

Lemma display_result_returns (s : Scope) (lines : list string) :
  coherent s -> snd (display_result s lines) = Return tt.
Proof.
  unfold display_result.
  intros [(-> & _ & _)|(ty & a & b & -> & -> & ->)]; reflexivity.
Qed.

(** ** Spans read off the rows *)

Lemma in_span_b_contains (n : Node) (L : Z) :
  in_span_b n L = node_contains_line n L.
Proof.
  unfold in_span_b. spans.
  destruct (Z.leb_spec (fst (start_point n) + 1) L),
    (Z.leb_spec (fst (start_point n)) (L - 1)); try lia;
    destruct (Z.leb_spec L (fst (end_point n) + 1)),
      (Z.leb_spec (L - 1) (fst (end_point n))); try lia; reflexivity.
Qed.

Lemma in_span_contains (n : Node) (L : Z) :
  in_span n L <-> node_contains_line n L = true.
Proof. symmetry. apply node_contains_line_iff. Qed.

Lemma pruned_preorder_visited (L : Z) (n : Node) :
  pruned_preorder L n = visited L n.
Proof.
  induction n as [ty sp ep cs IH] using Node_ind.
  rewrite visited_eq. cbn [pruned_preorder]. rewrite in_span_b_contains.
  destruct (node_contains_line _ L); [|reflexivity].
  f_equal. apply flat_map_ext_Forall, IH.
Qed.

Lemma pruned_preorder_nested (L : Z) (n : Node) :
  nested n = true ->
  pruned_preorder L n = filter (fun m => in_span_b m L) (preorder n).
Proof.
  intros Hn. rewrite pruned_preorder_visited, (visited_containing L n Hn).
  unfold containing. apply filter_ext. intros m. symmetry.
  apply in_span_b_contains.
Qed.

(** ** The walk under a recursion limit *)

Lemma within_eq (f : nat) (n : Node) (L : Z) (s : Scope) :
  find_smallest_enclosing_scope_within (S (S f)) n L s =
  if node_contains_line n L then
    s' <- update_scope n s ;;
    for_each (fun child acc =>
                find_smallest_enclosing_scope_within (S f) child L acc)
             (children n) s'
  else Ok s.
Proof. reflexivity. Qed.

Lemma within_no_frame (f : nat) (n : Node) (L : Z) (s : Scope) :
  (f <= 1)%nat ->
  find_smallest_enclosing_scope_within f n L s = Raised recursion_error.
Proof.
  intros H. destruct f as [|[|f]]; [reflexivity|reflexivity|lia].
Qed.

Lemma for_each_refines (F G : Node -> Scope -> result Scope)
      (cs : list Node) :
  Forall (fun c => forall s, F c s = Raised recursion_error
                             \/ F c s = G c s) cs ->
  forall s, for_each F cs s = Raised recursion_error
            \/ for_each F cs s = for_each G cs s.
Proof.
  induction 1 as [|c cs Hc _ IH]; intros s; simpl; [right; reflexivity|].
  destruct (Hc s) as [-> | ->]; [left; reflexivity|].
  destruct (G c s) as [s1|e]; simpl; [apply IH|right; reflexivity].
Qed.

Lemma within_refines (n : Node) (L : Z) :
  forall f s,
    find_smallest_enclosing_scope_within f n L s = Raised recursion_error
    \/ find_smallest_enclosing_scope_within f n L s
       = find_smallest_enclosing_scope n L s.
Proof.
  induction n as [ty sp ep cs IH] using Node_ind; intros f s.
  destruct f as [|[|f]]; [left; reflexivity|left; reflexivity|].
  rewrite within_eq, find_smallest_enclosing_scope_eq. cbn [children].
  destruct (node_contains_line _ L); [|right; reflexivity].
  destruct (update_scope _ s) as [s1|e]; cbn [rbind]; [|right; reflexivity].
  apply for_each_refines. rewrite Forall_forall in *. intros c Hc s0.
  apply (IH c Hc).
Qed.

Lemma frames_needed_eq (L : Z) (n : Node) :
  frames_needed L n
  = S (if node_contains_line n L
       then Nat.max 1 (list_max (map (frames_needed L) (children n)))
       else 1%nat).
Proof. destruct n; reflexivity. Qed.

Lemma frames_needed_child (L : Z) (cs : list Node) (c : Node) :
  In c cs -> (frames_needed L c <= list_max (map (frames_needed L) cs))%nat.
Proof.
  intros Hc.
  pose proof (proj1 (list_max_le (map (frames_needed L) cs) _) (le_n _)) as H.
  rewrite Forall_forall in H. apply H, in_map, Hc.
Qed.

Lemma within_enough (n : Node) (L : Z) :
  forall f s,
    (frames_needed L n <= f)%nat ->
    find_smallest_enclosing_scope_within f n L s
    = find_smallest_enclosing_scope n L s.
Proof.
  induction n as [ty sp ep cs IH] using Node_ind; intros f s.
  rewrite frames_needed_eq. cbn [children]. intros Hf.
  destruct f as [|[|f]];
    [lia|destruct (node_contains_line _ L); lia|].
  rewrite within_eq, find_smallest_enclosing_scope_eq. cbn [children].
  destruct (node_contains_line _ L); [|reflexivity].
  destruct (update_scope _ s) as [s1|e]; cbn [rbind]; [|reflexivity].
  apply for_each_ext. rewrite Forall_forall in *. intros c Hc acc.
  apply (IH c Hc). pose proof (frames_needed_child L cs c Hc). lia.
Qed.

Lemma for_each_short (L : Z) (g : nat) (cs : list Node) :
  Forall (fun c => forall f s s',
            (f < frames_needed L c)%nat ->
            find_smallest_enclosing_scope c L s = Ok s' ->
            find_smallest_enclosing_scope_within f c L s
            = Raised recursion_error) cs ->
  forall s s',
    for_each (fun c acc => find_smallest_enclosing_scope c L acc) cs s
    = Ok s' ->
    (g < list_max (map (frames_needed L) cs))%nat ->
    for_each (fun c acc => find_smallest_enclosing_scope_within g c L acc)
             cs s
    = Raised recursion_error.
Proof.
  induction 1 as [|c cs Hc _ IH]; intros s s' Hs Hg;
    cbn [for_each map] in *; [cbn in Hg; lia|].
  change (list_max (frames_needed L c :: map (frames_needed L) cs))
    with (Nat.max (frames_needed L c) (list_max (map (frames_needed L) cs)))
    in Hg.
  destruct (find_smallest_enclosing_scope c L s) as [s1|e] eqn:E;
    cbn [rbind] in Hs; [|discriminate].
  destruct (Nat.lt_ge_cases g (frames_needed L c)) as [Hlt|Hge].
  - rewrite (Hc g s s1 Hlt E). reflexivity.
  - destruct (within_refines c L g s) as [-> | ->]; [reflexivity|].
    rewrite E. cbn [rbind]. apply (IH s1 s' Hs). lia.
Qed.

Lemma within_short (n : Node) (L : Z) :
  forall f s s',
    (f < frames_needed L n)%nat ->
    find_smallest_enclosing_scope n L s = Ok s' ->
    find_smallest_enclosing_scope_within f n L s = Raised recursion_error.
Proof.
  induction n as [ty sp ep cs IH] using Node_ind; intros f s s'.
  rewrite frames_needed_eq, find_smallest_enclosing_scope_eq.
  cbn [children]. intros Hf Hs.
  destruct f as [|[|f]]; [reflexivity|reflexivity|].
  rewrite within_eq. cbn [children].
  destruct (node_contains_line _ L); [|lia].
  destruct (update_scope _ s) as [s1|e]; cbn [rbind] in *; [|discriminate].
  apply (for_each_short L (S f) cs IH s1 s' Hs). lia.
Qed.

Lemma find_scope_within_decided (frames : nat) (t : Tree) (L : Z) :
  find_scope_within frames t L
  = if (frames_needed L (root_node t) <? frames)%nat
    then find_scope t L
    else Raised recursion_error.
Proof.
  unfold find_scope_within, find_scope.
  destruct (Nat.ltb_spec (frames_needed L (root_node t)) frames) as [Hlt|Hge].
  - destruct frames as [|f]; [lia|]. cbn [call]. apply within_enough. lia.
  - destruct frames as [|f]; [reflexivity|]. cbn [call].
    destruct (find_preserves_coherent (root_node t) L no_scope)
      as (s & Hs & _); [left; auto|].
    apply (within_short _ L f no_scope s); [lia|exact Hs].
Qed.

Lemma frames_needed_chain (d : nat) : frames_needed 1 (chain d) = (d + 2)%nat.
Proof.
  induction d as [|d IH]; [reflexivity|].
  cbn [chain]. rewrite frames_needed_eq. cbn [children map].
  change (list_max [frames_needed 1 (chain d)])
    with (Nat.max (frames_needed 1 (chain d)) 0).
  rewrite IH.
  change (node_contains_line (mkNode "p" (0, 0) (0, 0) [chain d]) 1)
    with true.
  cbv iota. lia.
Qed.

Lemma frames_needed_outside (L : Z) (n : Node) :
  node_contains_line n L = false -> frames_needed L n = 2%nat.
Proof. intros H. rewrite frames_needed_eq, H. reflexivity. Qed.

(** ** The scenario of the specification *)

Example query_line_8 :
  find_scope sample_tree 8
  = Ok {| scope_type := Some "if_statement";
          start_line := Some 7; end_line := Some 9 |}.
Proof. reflexivity. Qed.

Example query_line_3 :
  find_scope sample_tree 3
  = Ok {| scope_type := Some "class_declaration";
          start_line := Some 2; end_line := Some 19 |}.
Proof. reflexivity. Qed.

Example query_line_20 :
  find_scope sample_tree 20
  = Ok {| scope_type := Some "program";
          start_line := Some 1; end_line := Some 20 |}.
Proof. reflexivity. Qed.

Example query_line_25 : find_scope sample_tree 25 = Ok no_scope.
Proof. reflexivity. Qed.

Example equal_spans_keep_the_outer_node :
  find_scope tie_tree 4
  = Ok {| scope_type := Some "block";
          start_line := Some 4; end_line := Some 5 |}.
Proof. reflexivity. Qed.

Example stray_tree_answer :
  find_scope stray_tree 5
  = Ok {| scope_type := Some "shown";
          start_line := Some 5; end_line := Some 5 |}.
Proof. reflexivity. Qed.

(** ** Sample runs of [main] *)

Example run_with_match :
  main sample_world (sample_args 2)
  = ((opened "A.java" ++ resolving sample_code
        ++ [EvFindScope 2;
            EvPrint "Scope Type: line_comment";
            EvPrint "Start Line: 2";
            EvPrint ("End Line: 2" ++ String "010" "");
            EvPrint "Code Snippet:";
            EvPrint "// end"])%list,
     Return tt).
Proof. reflexivity. Qed.

Example run_without_match :
  main short_tree_world (sample_args 2)
  = ((opened "A.java" ++ resolving sample_code
        ++ [EvFindScope 2;
            EvPrint "No relevant code scope found for the given line number."])%list,
     Return tt).
Proof. reflexivity. Qed.

Example run_line_zero :
  main sample_world (sample_args 0)
  = ((opened "A.java"
        ++ [EvPrint "Error: Line number must be a positive integer."])%list,
     SysExit 1).
Proof. reflexivity. Qed.

Example run_line_beyond :
  main sample_world (sample_args 3)
  = ((opened "A.java"
        ++ [EvPrint "Error: Line number 3 exceeds total number of lines (2)."])%list,
     SysExit 1).
Proof. reflexivity. Qed.

Example run_unreadable_file :
  main unreadable_file_world (sample_args 1)
  = ([EvOpen "A.java" true; EvPrint "Error: Cannot read file 'A.java'."],
     SysExit 1).
Proof. reflexivity. Qed.

(** * The claims *)

(** C1. Minimality: on a tree whose child spans lie within their parents'
    spans, and for a line in the root's span, [find_scope] returns the type
    and the 1-based span of a node of the tree whose span holds the line,
    and the width [end_line - start_line] it returns is least among all nodes
    of the tree whose span holds the line; in particular no descendant of
    that node holds the line with a strictly smaller width. *)
Theorem minimality (t : Tree) (L : Z) :
  nested (root_node t) = true ->
  in_span (root_node t) L ->
  least_width_match t L.
Proof.
  intros Hn Hr. apply in_span_contains in Hr.
  destruct (find_scope_cases t L) as [[E _]|(_ & n & Hf & Hfirst)];
    [congruence|].
  pose proof (first_of_least_width_in _ _ Hfirst) as Hin.
  destruct (visited_sound _ _ _ Hin) as [Hp Hc].
  assert (Hmin : forall m, In m (preorder (root_node t)) -> in_span m L ->
                           span_width n <= span_width m).
  { intros m Hm Hml. apply (first_of_least_width_least _ _ _ Hfirst).
    rewrite (visited_containing L _ Hn). apply containing_iff.
    split; [exact Hm|]. apply in_span_contains, Hml. }
  exists n, (fst (start_point n) + 1), (fst (end_point n) + 1).
  split; [exact Hp|]. split; [reflexivity|]. split; [reflexivity|].
  split; [exact Hf|]. split; [apply in_span_contains in Hc; exact Hc|].
  split.
  - intros m Hm Hml. apply (Hmin m Hm Hml).
  - intros d Hd Hdl Hlt.
    specialize (Hmin d (preorder_trans _ _ _ Hp Hd) Hdl).
    unfold span_width, node_end_line, node_start_line in *. lia.
Qed.

Lemma minimality_witness :
  nested (root_node sample_tree) = true
  /\ in_span (root_node sample_tree) 8
  /\ least_width_match sample_tree 8.
Proof.
  assert (Hr : in_span (root_node sample_tree) 8)
    by (vm_compute; split; discriminate).
  split; [reflexivity|]. split; [exact Hr|].
  apply (minimality sample_tree 8 eq_refl Hr).
Defined.

(** C2. Tie-break is first-visited-wins under pre-order: for every tree and
    line, of the nodes the pre-order traversal meets (a node before its
    children, children left to right, the subtree of a node whose span does
    not hold the line being skipped) the first one of least width is the one
    whose type and 1-based span [find_scope] returns, so among nodes of the
    same least width the earlier one wins; on a tree that keeps the nesting
    invariant the nodes met are all the nodes of the tree whose span holds
    the line.  [find_scope] being a function of the tree and the line, the
    choice is the same on every call. *)
Theorem tie_break_first_visited (t : Tree) (L : Z) :
  (forall n,
      first_of_least_width (pruned_preorder L (root_node t)) n ->
      find_scope t L
      = Ok {| scope_type := Some (type n);
              start_line := Some (fst (start_point n) + 1);
              end_line := Some (fst (end_point n) + 1) |})
  /\ (nested (root_node t) = true ->
      pruned_preorder L (root_node t)
      = filter (fun m => in_span_b m L) (preorder (root_node t))).
Proof.
  split; [|apply pruned_preorder_nested].
  intros n Hn. rewrite pruned_preorder_visited in Hn.
  rewrite find_scope_fold, (first_fold_pick _ _ Hn). reflexivity.
Qed.

Lemma tie_break_first_visited_witness :
  first_of_least_width (pruned_preorder 4 (root_node tie_tree))
    (mkNode "block" (3, 0) (4, 1) [leaf "expression_statement" 3 4])
  /\ find_scope tie_tree 4
     = Ok {| scope_type := Some "block";
             start_line := Some 4; end_line := Some 5 |}.
Proof.
  assert (F : first_of_least_width (pruned_preorder 4 (root_node tie_tree))
                (mkNode "block" (3, 0) (4, 1)
                   [leaf "expression_statement" 3 4])).
  { exists [root_node tie_tree], [leaf "expression_statement" 3 4].
    split; [reflexivity|].
    split; repeat constructor; vm_compute; congruence. }
  split; [exact F|].
  apply (proj1 (tie_break_first_visited tie_tree 4) _ F).
Defined.

(** C3. Containment correctness: whenever [find_scope] returns a match, its
    [start_line] and [end_line] enclose the queried line. *)
Theorem containment_correctness (t : Tree) (L : Z) (s : Scope) (a b : Z) :
  find_scope t L = Ok s ->
  start_line s = Some a -> end_line s = Some b ->
  a <= L <= b.
Proof.
  intros Hf Ha Hb.
  destruct (find_scope_cases t L) as [[_ E]|(_ & n & E & Hfirst)];
    rewrite E in Hf; injection Hf as <-; [discriminate Ha|].
  destruct (visited_sound _ _ _ (first_of_least_width_in _ _ Hfirst))
    as [_ Hc].
  simpl in Ha, Hb. injection Ha as <-. injection Hb as <-.
  spans. apply andb_true_iff in Hc. rewrite !Z.leb_le in Hc. lia.
Qed.

Lemma containment_correctness_witness :
  find_scope sample_tree 8 = Ok (current_scope (leaf "if_statement" 6 8))
  /\ 7 <= 8 <= 9.
Proof.
  split; [reflexivity|].
  apply (containment_correctness sample_tree 8
           (current_scope (leaf "if_statement" 6 8)) 7 9); reflexivity.
Defined.

(** C4. Pruning equivalence: on a well-formed tree (child spans within the
    parent's span, start not after end at every node) the pruned search and
    the exhaustive search return the same result for every line. *)
Theorem pruning_equivalence (t : Tree) (L : Z) :
  well_formed (root_node t) = true ->
  find_scope t L = exhaustive_find_scope t L.
Proof.
  unfold well_formed. intros H. apply andb_true_iff in H. destruct H as [H _].
  apply (pruned_is_exhaustive (root_node t) L H no_scope).
Qed.

Lemma pruning_equivalence_witness :
  well_formed (root_node sample_tree) = true
  /\ find_scope sample_tree 8 = exhaustive_find_scope sample_tree 8.
Proof.
  split; [reflexivity|]. apply (pruning_equivalence sample_tree 8).
  reflexivity.
Defined.

Example exhaustive_differs_on_stray_tree :
  exhaustive_find_scope stray_tree 5
  = Ok {| scope_type := Some "hidden";
          start_line := Some 5; end_line := Some 5 |}.
Proof. reflexivity. Qed.

(** C5. No-match exactly when the root does not contain the line: when the
    line lies in the root's span [start_line..end_line], [find_scope]
    returns the type and span of a node of the tree; when it lies before the
    root's start line or after its end line, [find_scope] returns the
    dictionary whose three values are [None]; so the result is no-match if
    and only if the line is outside the root's span. *)
Theorem no_match_iff_root_outside (t : Tree) (L : Z) :
  (in_span (root_node t) L ->
   exists n, In n (preorder (root_node t))
             /\ find_scope t L
                = Ok {| scope_type := Some (type n);
                        start_line := Some (fst (start_point n) + 1);
                        end_line := Some (fst (end_point n) + 1) |})
  /\ (L < node_start_line (root_node t) \/ node_end_line (root_node t) < L ->
      find_scope t L
      = Ok {| scope_type := None; start_line := None; end_line := None |})
  /\ (find_scope t L
      = Ok {| scope_type := None; start_line := None; end_line := None |}
      <-> ~ in_span (root_node t) L).
Proof.
  assert (Hin : in_span (root_node t) L ->
                exists n, In n (preorder (root_node t))
                          /\ find_scope t L = Ok (current_scope n)).
  { intros H. apply find_scope_inside, in_span_contains, H. }
  assert (Hout : ~ in_span (root_node t) L -> find_scope t L = Ok no_scope).
  { intros H. apply find_scope_outside.
    destruct (node_contains_line (root_node t) L) eqn:E; [|reflexivity].
    apply in_span_contains in E. contradiction. }
  split; [exact Hin|]. split; [|split; [|exact Hout]].
  - intros H. apply Hout. unfold in_span. lia.
  - intros E H. destruct (Hin H) as (n & _ & F). rewrite F in E.
    discriminate E.
Qed.

Lemma no_match_iff_root_outside_witness :
  (in_span (root_node sample_tree) 8
   /\ exists n, In n (preorder (root_node sample_tree))
                /\ find_scope sample_tree 8
                   = Ok {| scope_type := Some (type n);
                           start_line := Some (fst (start_point n) + 1);
                           end_line := Some (fst (end_point n) + 1) |})
  /\ (node_end_line (root_node sample_tree) < 25
      /\ find_scope sample_tree 25
         = Ok {| scope_type := None; start_line := None; end_line := None |})
  /\ (0 < node_start_line (root_node sample_tree)
      /\ find_scope sample_tree 0
         = Ok {| scope_type := None; start_line := None; end_line := None |}).
Proof.
  assert (H8 : in_span (root_node sample_tree) 8)
    by (vm_compute; split; discriminate).
  split; [split; [exact H8|]|split; (split; [reflexivity|])].
  - apply (proj1 (no_match_iff_root_outside sample_tree 8) H8).
  - apply (proj1 (proj2 (no_match_iff_root_outside sample_tree 25))).
    right. reflexivity.
  - apply (proj1 (proj2 (no_match_iff_root_outside sample_tree 0))).
    left. reflexivity.
Defined.

(** C6. Coordinate convention: the dictionary of a node reports its 0-based
    start and end rows plus 1; the containment test is true exactly when
    [start_line <= target_line <= end_line] in that 1-based inclusive
    convention; and every reported match is the dictionary of a node of the
    tree. *)
Theorem coordinate_convention (t : Tree) (L : Z) (s : Scope) (a b : Z) :
  find_scope t L = Ok s ->
  start_line s = Some a -> end_line s = Some b ->
  (exists n, In n (preorder (root_node t))
             /\ s = current_scope n
             /\ a = fst (start_point n) + 1
             /\ b = fst (end_point n) + 1)
  /\ (forall n T,
        start_line (current_scope n) = Some (node_start_line n)
        /\ end_line (current_scope n) = Some (node_end_line n)
        /\ (node_contains_line n T = true
            <-> node_start_line n <= T <= node_end_line n)).
Proof.
  intros Hf Ha Hb. split.
  - destruct (find_scope_cases t L) as [[_ E]|(_ & n & E & Hfirst)];
      rewrite E in Hf; injection Hf as <-; [discriminate Ha|].
    exists n. simpl in Ha, Hb. injection Ha as <-. injection Hb as <-.
    repeat split.
    apply (visited_sound L), first_of_least_width_in, Hfirst.
  - intros n T. split; [reflexivity|]. split; [reflexivity|].
    apply node_contains_line_iff.
Qed.

Lemma coordinate_convention_witness :
  find_scope sample_tree 3
  = Ok {| scope_type := Some "class_declaration";
          start_line := Some 2; end_line := Some 19 |}
  /\ exists n, In n (preorder (root_node sample_tree))
               /\ 2 = fst (start_point n) + 1 /\ 19 = fst (end_point n) + 1.
Proof.
  split; [reflexivity|].
  destruct (coordinate_convention sample_tree 3 _ 2 19 eq_refl eq_refl eq_refl)
    as [(n & Hn & _ & Ha & Hb) _].
  exists n. auto.
Defined.




(** C10. Coherence of the result: the dictionary returned by [find_scope]
    has its three values all proper or all [None], so the test on ['type']
    in [display_result] and the test on ['start_line'] in the update agree
    on it; the same holds for every dictionary a call of the walk returns
    when it was given a coherent one, hence for every dictionary the update
    tests. *)
Theorem result_coherent (t : Tree) (L : Z) :
  (exists s, find_scope t L = Ok s
             /\ coherent s
             /\ type_is_none s = start_line_is_none s)
  /\ (forall n s,
         coherent s ->
         exists s', find_smallest_enclosing_scope n L s = Ok s'
                    /\ coherent s'
                    /\ type_is_none s' = start_line_is_none s').
Proof.
  assert (H : forall n s,
             coherent s ->
             exists s', find_smallest_enclosing_scope n L s = Ok s'
                        /\ coherent s'
                        /\ type_is_none s' = start_line_is_none s').
  { intros n s Hs.
    destruct (find_preserves_coherent n L s Hs) as (s' & Hs' & Hc).
    exists s'. split; [exact Hs'|]. split; [exact Hc|].
    apply coherent_tests_agree, Hc. }
  split; [|exact H].
  apply (H (root_node t) no_scope). left. auto.
Qed.

Lemma result_coherent_witness :
  coherent (current_scope (root_node sample_tree))
  /\ exists s', find_smallest_enclosing_scope
                  (leaf "if_statement" 6 8) 8
                  (current_scope (root_node sample_tree)) = Ok s'
                /\ coherent s'
                /\ type_is_none s' = start_line_is_none s'.
Proof.
  assert (Hc : coherent (current_scope (root_node sample_tree))).
  { right. do 3 eexists. repeat split. }
  split; [exact Hc|].
  apply (proj2 (result_coherent sample_tree 8)), Hc.
Defined.

(** C7. Pre-validation precedes resolution: [validate_line_number] turns
    away a line number that is not positive (with the message of an invalid
    line number) and one greater than the number of lines (with the message
    of a line out of range) and accepts every other; when the file was read
    and the line number is turned away, [main] ends through [sys.exit(1)]
    without having asked for the parser, parsed, or walked a tree, and when
    it is accepted the parser is invoked. *)
Theorem validation_precedes_resolution
        (w : World) (args : Args) (code : list byte) (lines : list string) :
  open_rb w (file_path args) = Ok code ->
  open_text w (file_path args) = Ok lines ->
  (forall L total,
      (L <= 0 ->
       validate_line_number L total
       = ([EvPrint "Error: Line number must be a positive integer."],
          Return false))
      /\ (0 < L -> total < L ->
          validate_line_number L total
          = ([EvPrint ("Error: Line number " ++ str_int L
                       ++ " exceeds total number of lines ("
                       ++ str_int total ++ ").")], Return false))
      /\ (0 < L <= total ->
          validate_line_number L total = ([], Return true)))
  /\ (line_number args <= 0
      \/ Z.of_nat (List.length lines) < line_number args ->
      rejected_before_resolution w args)
  /\ (0 < line_number args <= Z.of_nat (List.length lines) ->
      In (EvParse code) (trace (main w args))).
Proof.
  intros Hb Ht. split; [|split].
  - intros L total. split; [apply validate_nonpositive|].
    split; [apply validate_beyond|apply validate_accepts].
  - intros Hbad. destruct (validate_rejects _ _ Hbad) as [msg Hv].
    unfold rejected_before_resolution.
    rewrite (main_rejected w args code lines msg Hb Ht Hv).
    split; reflexivity.
  - intros Hgood. destruct (parser_parse w code) as [tree|e] eqn:Hp.
    + rewrite (main_resolves w args code lines tree Hb Ht Hgood Hp).
      cbv zeta.
      destruct (find_scope tree (line_number args)) as [s|e];
        [destruct (display_result s lines) as [tr o]|];
        unfold trace, opened, resolving; cbn [fst app];
        right; right; right; right; left; reflexivity.
    + rewrite (main_parse_fails w args code lines e Hb Ht Hgood Hp).
      unfold trace, opened, resolving; cbn [fst app].
      right; right; right; right; left; reflexivity.
Qed.

Lemma validation_precedes_resolution_witness :
  open_rb sample_world (file_path (sample_args 0)) = Ok sample_code
  /\ open_text sample_world (file_path (sample_args 0)) = Ok sample_lines
  /\ rejected_before_resolution sample_world (sample_args 0).
Proof.
  split; [reflexivity|]. split; [reflexivity|].
  apply (validation_precedes_resolution sample_world (sample_args 0)
           sample_code sample_lines eq_refl eq_refl).
  left. simpl. lia.
Defined.

(** C8. Exit codes: the process exits with status 1 when the file does not
    exist or cannot be read, when the line number is not positive or exceeds
    the number of lines, and when the parser fails; it exits with status 0
    once the file was read, the line number accepted and the tree parsed,
    whether the walk finds a match or not. *)
Theorem cli_exit_codes (w : World) (args : Args) :
  (read_fails w (file_path args) -> exit_status (main w args) = 1)
  /\ (forall code lines,
         open_rb w (file_path args) = Ok code ->
         open_text w (file_path args) = Ok lines ->
         (line_number args <= 0
          \/ Z.of_nat (List.length lines) < line_number args ->
          exit_status (main w args) = 1)
         /\ (0 < line_number args <= Z.of_nat (List.length lines) ->
             (forall e, parser_parse w code = Raised e ->
                        exit_status (main w args) = 1)
             /\ (forall tree, parser_parse w code = Ok tree ->
                              exit_status (main w args) = 0))).
Proof.
  split.
  - intros Hfail. apply (main_read_fails w args Hfail).
  - intros code lines Hb Ht. split.
    + intros Hbad. destruct (validate_rejects _ _ Hbad) as [msg Hv].
      rewrite (main_rejected w args code lines msg Hb Ht Hv). reflexivity.
    + intros Hgood. split.
      * intros e Hp.
        rewrite (main_parse_fails w args code lines e Hb Ht Hgood Hp).
        reflexivity.
      * intros tree Hp.
        rewrite (main_resolves w args code lines tree Hb Ht Hgood Hp).
        cbv zeta.
        destruct (find_preserves_coherent (root_node tree) (line_number args)
                    no_scope) as (s & Hs & Hc); [left; auto|].
        unfold find_scope. rewrite Hs.
        pose proof (display_result_returns s lines Hc) as Hd.
        destruct (display_result s lines) as [tr o]. simpl in Hd.
        unfold exit_status. simpl. rewrite Hd. reflexivity.
Qed.

Lemma cli_exit_codes_witness :
  exit_status (main missing_file_world (sample_args 1)) = 1
  /\ exit_status (main sample_world (sample_args 3)) = 1
  /\ exit_status (main broken_parser_world (sample_args 1)) = 1
  /\ exit_status (main sample_world (sample_args 1)) = 0
  /\ exit_status (main short_tree_world (sample_args 2)) = 0.
Proof.
  split; [|split; [|split; [|split]]].
  - apply (proj1 (cli_exit_codes missing_file_world (sample_args 1))).
    exists (mkExn FileNotFoundError "No such file"). left. reflexivity.
  - refine (proj1 (proj2 (cli_exit_codes sample_world (sample_args 3))
                     sample_code sample_lines eq_refl eq_refl) _).
    right. simpl. lia.
  - refine (proj1 (proj2 (proj2 (cli_exit_codes broken_parser_world
                                   (sample_args 1))
                            sample_code sample_lines eq_refl eq_refl) _)
              _ eq_refl).
    simpl. lia.
  - refine (proj2 (proj2 (proj2 (cli_exit_codes sample_world (sample_args 1))
                            sample_code sample_lines eq_refl eq_refl) _)
              small_tree eq_refl).
    simpl. lia.
  - refine (proj2 (proj2 (proj2 (cli_exit_codes short_tree_world
                                   (sample_args 2))
                            sample_code sample_lines eq_refl eq_refl) _)
              (mkTree (leaf "program" 0 0)) eq_refl).
    simpl. lia.
Defined.

(** * Further properties of the resolver *)

Lemma scope_width_current (n : Node) :
  scope_width (current_scope n) = Some (span_width n).
Proof. reflexivity. Qed.

Lemma kept_or_narrower_width (s s' : Scope) (w : Z) :
  scope_width s = Some w -> kept_or_narrower s s' ->
  exists w', scope_width s' = Some w' /\ w' <= w.
Proof.
  intros Hw [->|(v & v' & Hv & Hv' & Hlt)].
  - exists w. split; [exact Hw|lia].
  - exists v'. split; [exact Hv'|]. rewrite Hw in Hv. injection Hv as <-. lia.
Qed.

Lemma kept_or_narrower_trans (s1 s2 s3 : Scope) :
  kept_or_narrower s1 s2 -> kept_or_narrower s2 s3 -> kept_or_narrower s1 s3.
Proof.
  intros [->|(w & w' & Hw & Hw' & Hlt)] H23; [exact H23|].
  destruct H23 as [->|(v & v' & Hv & Hv' & Hlt')].
  - right. eauto 6.
  - right. exists w, v'. rewrite Hw' in Hv. injection Hv as <-.
    repeat split; try assumption. lia.
Qed.

Lemma update_scope_narrows (n : Node) (s : Scope) (w : Z) :
  scope_width s = Some w ->
  exists s', update_scope n s = Ok s' /\ kept_or_narrower s s'.
Proof.
  unfold scope_width, update_scope.
  destruct (start_line s) as [a|] eqn:Ha; [|discriminate].
  destruct (end_line s) as [b|] eqn:Hb; [|discriminate].
  intros [= <-]. cbn.
  destruct (Z.ltb_spec (fst (end_point n) + 1 - (fst (start_point n) + 1))
              (b - a)) as [Hlt|Hge].
  - exists (current_scope n). split; [reflexivity|]. right.
    exists (b - a), (span_width n). unfold scope_width. rewrite Ha, Hb.
    repeat split. exact Hlt.
  - exists s. split; [reflexivity|left; reflexivity].
Qed.

Lemma for_each_narrows (f : Node -> Scope -> result Scope) (cs : list Node) :
  Forall (fun c => forall s w, scope_width s = Some w ->
                   exists s', f c s = Ok s' /\ kept_or_narrower s s') cs ->
  forall s w, scope_width s = Some w ->
              exists s', for_each f cs s = Ok s' /\ kept_or_narrower s s'.
Proof.
  induction 1 as [|c cs Hc _ IH]; intros s w Hw; simpl.
  - exists s. split; [reflexivity|left; reflexivity].
  - destruct (Hc s w Hw) as (s1 & -> & H1). simpl.
    destruct (kept_or_narrower_width _ _ _ Hw H1) as (w1 & Hw1 & _).
    destruct (IH s1 w1 Hw1) as (s2 & -> & H2).
    exists s2. split; [reflexivity|].
    apply (kept_or_narrower_trans _ _ _ H1 H2).
Qed.

Lemma find_narrows (n : Node) (L : Z) :
  forall s w, scope_width s = Some w ->
              exists s', find_smallest_enclosing_scope n L s = Ok s'
                         /\ kept_or_narrower s s'.
Proof.
  induction n as [ty sp ep cs IH] using Node_ind; intros s w Hw.
  rewrite find_smallest_enclosing_scope_eq. cbn [children].
  destruct (node_contains_line _ L).
  - destruct (update_scope_narrows (mkNode ty sp ep cs) s w Hw)
      as (s1 & -> & H1). simpl.
    destruct (kept_or_narrower_width _ _ _ Hw H1) as (w1 & Hw1 & _).
    destruct (for_each_narrows _ cs IH s1 w1 Hw1) as (s2 & -> & H2).
    exists s2. split; [reflexivity|].
    apply (kept_or_narrower_trans _ _ _ H1 H2).
  - exists s. split; [reflexivity|left; reflexivity].
Qed.

Lemma coherent_as_best (s : Scope) :
  coherent s -> exists o, s = scope_of_best o.
Proof.
  destruct s as [ty a b].
  intros [(Ht & Ha & Hb)|(ty' & a' & b' & Ht & Ha & Hb)]; simpl in *; subst.
  - exists None. reflexivity.
  - exists (Some (mkNode ty' (a' - 1, 0) (b' - 1, 0) [])).
    unfold scope_of_best, current_scope. cbn. f_equal; f_equal; lia.
Qed.

Lemma fold_pick_fixed (l : list Node) (o : option Node) :
  fold_left pick l (fold_left pick l o) = fold_left pick l o.
Proof.
  destruct (fold_left pick l o) as [r|] eqn:E.
  - apply fold_pick_keep. rewrite Forall_forall. intros m Hm.
    destruct o as [b|].
    + apply (first_of_least_width_least (b :: l) r m (fold_pick_first _ _ _ E)).
      right. exact Hm.
    + apply (first_of_least_width_least l r m (fold_pick_result _ _ E) Hm).
  - destruct o as [b|].
    + destruct (fold_pick_nonempty b l) as (r & Hr & _). simpl in Hr.
      congruence.
    + rewrite (fold_pick_none l E). reflexivity.
Qed.

Lemma visited_without_children (L : Z) (cs : list Node) :
  (forall c, In c cs -> node_contains_line c L = false) ->
  flat_map (visited L) cs = [].
Proof.
  induction cs as [|c cs IH]; intros H; simpl; [reflexivity|].
  rewrite visited_eq, (H c (or_introl eq_refl)). simpl.
  apply IH. intros d Hd. apply H. right. exact Hd.
Qed.



(** X2. Walking the same node again changes nothing: when the walk, started
    on a coherent dictionary, returned [s'], the walk started on [s'] returns
    [s'] again. *)
Theorem walk_stable_on_rerun (n : Node) (L : Z) (s s' : Scope) :
  coherent s ->
  find_smallest_enclosing_scope n L s = Ok s' ->
  find_smallest_enclosing_scope n L s' = Ok s'.
Proof.
  intros Hc Hs. destruct (coherent_as_best s Hc) as [o ->].
  rewrite find_visited in Hs. injection Hs as <-.
  rewrite find_visited, fold_pick_fixed. reflexivity.
Qed.

Lemma walk_stable_on_rerun_witness :
  coherent no_scope
  /\ find_smallest_enclosing_scope (root_node sample_tree) 8 no_scope
     = Ok (current_scope (leaf "if_statement" 6 8))
  /\ find_smallest_enclosing_scope (root_node sample_tree) 8
       (current_scope (leaf "if_statement" 6 8))
     = Ok (current_scope (leaf "if_statement" 6 8)).
Proof.
  assert (Hc : coherent no_scope) by (left; auto).
  split; [exact Hc|]. split; [reflexivity|].
  apply (walk_stable_on_rerun (root_node sample_tree) 8 no_scope _ Hc).
  reflexivity.
Defined.

(** X3. When the root is the answer: for a line the root contains,
    [find_scope] returns the root's dictionary exactly when no node the walk
    reaches is strictly narrower than the root; this is the case in
    particular when no child of the root contains the line. *)
Theorem root_is_the_match (t : Tree) (L : Z) :
  node_contains_line (root_node t) L = true ->
  (find_scope t L = Ok (current_scope (root_node t))
   <-> forall m, In m (visited L (root_node t)) ->
                 span_width (root_node t) <= span_width m)
  /\ ((forall c, In c (children (root_node t)) ->
                 node_contains_line c L = false) ->
      find_scope t L = Ok (current_scope (root_node t))).
Proof.
  intros Hr.
  assert (Hif : (forall m, In m (visited L (root_node t)) ->
                           span_width (root_node t) <= span_width m) ->
                find_scope t L = Ok (current_scope (root_node t))).
  { intros Hall. rewrite find_scope_fold. revert Hall.
    rewrite (visited_eq L (root_node t)), Hr. intros Hall.
    cbn [fold_left pick]. rewrite fold_pick_keep; [reflexivity|].
    rewrite Forall_forall. intros m Hm. apply Hall. right. exact Hm. }
  split; [split; [|exact Hif]|].
  - intros E m Hm.
    destruct (find_scope_cases t L) as [[F _]|(_ & r & F & Hfirst)];
      [congruence|].
    rewrite F in E. injection E as _ Hs He.
    pose proof (first_of_least_width_least _ _ _ Hfirst Hm) as Hle.
    spans. lia.
  - intros Hcs. apply Hif. intros m.
    rewrite (visited_eq L (root_node t)), Hr,
      (visited_without_children L _ Hcs).
    intros [<-|[]]. lia.
Qed.

Lemma root_is_the_match_witness :
  node_contains_line (root_node sample_tree) 20 = true
  /\ (forall c, In c (children (root_node sample_tree)) ->
                node_contains_line c 20 = false)
  /\ find_scope sample_tree 20 = Ok (current_scope (root_node sample_tree)).
Proof.
  assert (Hcs : forall c, In c (children (root_node sample_tree)) ->
                          node_contains_line c 20 = false).
  { intros c [<-|[]]. reflexivity. }
  split; [reflexivity|]. split; [exact Hcs|].
  apply (proj2 (root_is_the_match sample_tree 20 eq_refl)), Hcs.
Defined.

Lemma find_returns_unless_half_set (n : Node) (L : Z) (s : Scope) :
  node_contains_line n L = false
  \/ start_line s = None \/ end_line s <> None ->
  exists s', find_smallest_enclosing_scope n L s = Ok s'.
Proof.
  intros H. destruct (node_contains_line n L) eqn:Hc.
  2:{ rewrite find_smallest_enclosing_scope_eq, Hc. eauto. }
  destruct (start_line s) as [a|] eqn:Ha.
  - destruct (end_line s) as [b|] eqn:Hb;
      [|destruct H as [H|[H|H]]; congruence].
    destruct (find_narrows n L s (b - a)) as (s' & Hs' & _); [|eauto].
    unfold scope_width. rewrite Ha, Hb. reflexivity.
  - rewrite find_smallest_enclosing_scope_eq, Hc.
    unfold update_scope. rewrite Ha. simpl.
    destruct (for_each_narrows
                (fun c acc => find_smallest_enclosing_scope c L acc)
                (children n)) with (s := current_scope n)
                                   (w := span_width n)
      as (s' & Hs' & _); [|reflexivity|eauto].
    rewrite Forall_forall. intros c _ s0 w0. apply find_narrows.
Qed.




Example deep_chain_without_limit :
  find_scope (mkTree (chain 1200)) 1
  = Ok {| scope_type := Some "p"; start_line := Some 1; end_line := Some 1 |}.
Proof. vm_compute. reflexivity. Qed.

Example deep_chain_with_limit :
  find_scope_within 1000 (mkTree (chain 1200)) 1 = Raised recursion_error.
Proof. vm_compute. reflexivity. Qed.

(** * Further properties of the command-line program *)

Lemma py_slice_from_front {A : Type} (l : list A) (lo hi : Z) :
  0 <= lo -> 0 <= hi ->
  py_slice l lo (Some hi)
  = firstn (Z.to_nat (hi - lo)) (skipn (Z.to_nat lo) l).
Proof.
  intros Hlo Hhi. unfold py_slice, slice_bound.
  destruct (Z.ltb_spec lo 0); [lia|]. destruct (Z.ltb_spec hi 0); [lia|].
  destruct (Z_le_gt_dec lo (Z.of_nat (List.length l))) as [Hin|Hout].
  - rewrite (Z.min_l lo) by exact Hin.
    destruct (Z_le_gt_dec hi (Z.of_nat (List.length l))) as [Hh|Hh].
    + rewrite Z.min_l by exact Hh. reflexivity.
    + rewrite Z.min_r by lia.
      rewrite !firstn_all2; [reflexivity| |]; rewrite length_skipn; lia.
  - rewrite (Z.min_r lo) by lia.
    rewrite (skipn_all2 (n := Z.to_nat lo)) by lia.
    rewrite Nat2Z.id, skipn_all, !firstn_nil. reflexivity.
Qed.

Lemma py_slice_length {A : Type} (l : list A) (lo hi : Z) :
  0 <= lo -> 0 <= hi ->
  Z.of_nat (List.length (py_slice l lo (Some hi)))
  = Z.max 0 (Z.min hi (Z.of_nat (List.length l)) - lo).
Proof.
  intros Hlo Hhi. rewrite (py_slice_from_front l lo hi Hlo Hhi).
  rewrite length_firstn, length_skipn. lia.
Qed.

Lemma display_result_all_set (ty : string) (a b : Z) (lines : list string) :
  display_result {| scope_type := Some ty; start_line := Some a;
                    end_line := Some b |} lines
  = ([EvPrint ("Scope Type: " ++ ty);
      EvPrint ("Start Line: " ++ str_int a);
      EvPrint ("End Line: " ++ str_int b ++ String "010" "");
      EvPrint "Code Snippet:";
      EvPrint (String.concat "" (py_slice lines (a - 1) (Some b)))],
     Return tt).
Proof. reflexivity. Qed.

Lemma main_within_resolves (frames : nat) (w : World) (args : Args)
      (code : list byte) (lines : list string) (tree : Tree) :
  open_rb w (file_path args) = Ok code ->
  open_text w (file_path args) = Ok lines ->
  0 < line_number args <= Z.of_nat (List.length lines) ->
  parser_parse w code = Ok tree ->
  main_within frames w args
  = let steps := (opened (file_path args) ++ resolving code
                    ++ [EvFindScope (line_number args)])%list in
    match find_scope_within frames tree (line_number args) with
    | Ok scope =>
        let (tr, o) := display_result scope lines in ((steps ++ tr)%list, o)
    | Raised e => (steps, Uncaught e)
    end.
Proof.
  intros Hb Ht Hv Hp. unfold main_within.
  rewrite (read_file_ok _ _ _ _ Hb Ht). cbn [pbind].
  rewrite (validate_accepts _ _ Hv). unfold parse_code. rewrite Hp.
  cbn -[find_scope_within display_result].
  destruct (find_scope_within frames tree (line_number args)) as [s|e]; cbn.
  - destruct (display_result s lines) as [tr o]. reflexivity.
  - reflexivity.
Qed.

(** X5. What a match prints: for a dictionary with all three values set,
    a start line of at least 1 and a non-negative end line, [display_result]
    prints the type, the two line numbers, the heading and then the lines
    [start_line] to [end_line] of the file joined together, and returns; the
    slice stops at the end of the file when [end_line] lies beyond it and is
    empty when [end_line] is before [start_line]. *)
Theorem display_result_shows_span
        (ty : string) (a b : Z) (lines : list string) :
  1 <= a -> 0 <= b ->
  let snippet :=
    firstn (Z.to_nat (b - a + 1)) (skipn (Z.to_nat (a - 1)) lines) in
  display_result {| scope_type := Some ty; start_line := Some a;
                    end_line := Some b |} lines
  = ([EvPrint ("Scope Type: " ++ ty);
      EvPrint ("Start Line: " ++ str_int a);
      EvPrint ("End Line: " ++ str_int b ++ String "010" "");
      EvPrint "Code Snippet:";
      EvPrint (String.concat "" snippet)],
     Return tt)
  /\ Z.of_nat (List.length snippet)
     = Z.max 0 (Z.min b (Z.of_nat (List.length lines)) - (a - 1)).
Proof.
  intros Ha Hb snippet.
  assert (E : py_slice lines (a - 1) (Some b) = snippet).
  { rewrite py_slice_from_front by lia. unfold snippet.
    replace (b - (a - 1)) with (b - a + 1) by lia. reflexivity. }
  split.
  - rewrite display_result_all_set, E. reflexivity.
  - rewrite <- E. apply py_slice_length; lia.
Qed.

Lemma display_result_shows_span_witness :
  1 <= 2 /\ 0 <= 5
  /\ display_result {| scope_type := Some "line_comment";
                       start_line := Some 2; end_line := Some 5 |}
       sample_lines
     = ([EvPrint "Scope Type: line_comment";
         EvPrint "Start Line: 2";
         EvPrint ("End Line: 5" ++ String "010" "");
         EvPrint "Code Snippet:";
         EvPrint "// end"],
        Return tt).
Proof.
  split; [lia|]. split; [lia|].
  apply (display_result_shows_span "line_comment" 2 5 sample_lines); lia.
Defined.

(** X6. A run without a match: when the file was read, the line number
    accepted and the tree parsed, and the root does not contain the line,
    [main] prints the single message that no scope was found and returns
    normally. *)
Theorem main_reports_no_match
        (w : World) (args : Args) (code : list byte) (lines : list string)
        (tree : Tree) :
  open_rb w (file_path args) = Ok code ->
  open_text w (file_path args) = Ok lines ->
  0 < line_number args <= Z.of_nat (List.length lines) ->
  parser_parse w code = Ok tree ->
  node_contains_line (root_node tree) (line_number args) = false ->
  main w args
  = ((opened (file_path args) ++ resolving code
        ++ [EvFindScope (line_number args);
            EvPrint "No relevant code scope found for the given line number."])%list,
     Return tt).
Proof.
  intros Hb Ht Hgood Hp Hout.
  rewrite (main_resolves w args code lines tree Hb Ht Hgood Hp).
  rewrite (find_scope_outside tree _ Hout). reflexivity.
Qed.

Lemma main_reports_no_match_witness :
  0 < line_number (sample_args 2) <= Z.of_nat (List.length sample_lines)
  /\ node_contains_line (leaf "program" 0 0) 2 = false
  /\ trace (main short_tree_world (sample_args 2))
     = (opened "A.java" ++ resolving sample_code
          ++ [EvFindScope 2;
              EvPrint "No relevant code scope found for the given line number."])%list.
Proof.
  assert (Hgood : 0 < line_number (sample_args 2)
                  <= Z.of_nat (List.length sample_lines)) by (simpl; lia).
  split; [exact Hgood|]. split; [reflexivity|].
  rewrite (main_reports_no_match short_tree_world (sample_args 2)
             sample_code sample_lines (mkTree (leaf "program" 0 0))
             eq_refl eq_refl Hgood eq_refl eq_refl).
  reflexivity.
Defined.



(** X9. An empty file admits no line number: when the file has no lines,
    every line number is turned away and [main] leaves through [sys.exit(1)]
    before any step of resolution. *)
Theorem empty_file_rejects_every_line
        (w : World) (args : Args) (code : list byte) :
  open_rb w (file_path args) = Ok code ->
  open_text w (file_path args) = Ok [] ->
  rejected_before_resolution w args.
Proof.
  intros Hb Ht.
  assert (Hbad : line_number args <= 0
                 \/ Z.of_nat (@List.length string []) < line_number args)
    by (simpl; lia).
  destruct (validate_rejects _ _ Hbad) as [msg Hv].
  unfold rejected_before_resolution.
  rewrite (main_rejected w args code [] msg Hb Ht Hv). split; reflexivity.
Qed.

Lemma empty_file_rejects_every_line_witness :
  open_text empty_file_world (file_path (sample_args 1)) = Ok []
  /\ rejected_before_resolution empty_file_world (sample_args 1).
Proof.
  split; [reflexivity|].
  apply (empty_file_rejects_every_line empty_file_world (sample_args 1) []);
    reflexivity.
Defined.

(** X10. How [read_file] reports a failure: when one of the two [open] calls
    raises, nothing more is opened; a [FileNotFoundError] is answered by the
    message that the file does not exist and an [IOError] by the message that
    it cannot be read, both followed by [sys.exit(1)]; an exception of any
    other class is not caught and no message is printed. *)
Theorem read_file_error_reporting
        (w : World) (p : string) (e : exn) (attempted : list event) :
  (open_rb w p = Raised e /\ attempted = [EvOpen p true])
  \/ (exists code, open_rb w p = Ok code /\ open_text w p = Raised e
                   /\ attempted = opened p) ->
  read_file w p
  = match exn_class_of e with
    | FileNotFoundError =>
        ((attempted
            ++ [EvPrint ("Error: File '" ++ p ++ "' does not exist.")])%list,
         SysExit 1)
    | IOError =>
        ((attempted
            ++ [EvPrint ("Error: Cannot read file '" ++ p ++ "'.")])%list,
         SysExit 1)
    | _ => (attempted, Uncaught e)
    end.
Proof.
  intros [(Hb & ->)|(code & Hb & Ht & ->)]; unfold read_file;
    rewrite Hb; try rewrite Ht; cbn; destruct (exn_class_of e); reflexivity.
Qed.

Lemma read_file_error_reporting_witness :
  read_file unreadable_file_world "A.java"
  = ([EvOpen "A.java" true; EvPrint "Error: Cannot read file 'A.java'."],
     SysExit 1).
Proof.
  apply (read_file_error_reporting unreadable_file_world "A.java"
           (mkExn IOError "Permission denied") [EvOpen "A.java" true]).
  left. split; reflexivity.
Defined.

(** X11. A run whose parse fails: when the file was read and the line number
    accepted but the parser raises, [main] prints the parse error with the
    exception's text and leaves through [sys.exit(1)]; no tree is walked and
    nothing else is printed. *)
Theorem main_reports_parse_failure
        (w : World) (args : Args) (code : list byte) (lines : list string)
        (e : exn) :
  open_rb w (file_path args) = Ok code ->
  open_text w (file_path args) = Ok lines ->
  0 < line_number args <= Z.of_nat (List.length lines) ->
  parser_parse w code = Raised e ->
  main w args
  = ((opened (file_path args) ++ resolving code
        ++ [EvPrint ("Error parsing code: " ++ exn_text e)])%list,
     SysExit 1)
  /\ ~ In (EvFindScope (line_number args)) (trace (main w args)).
Proof.
  intros Hb Ht Hgood Hp.
  rewrite (main_parse_fails w args code lines e Hb Ht Hgood Hp).
  split; [reflexivity|].
  unfold trace, opened, resolving. cbn [fst app].
  intros [H|[H|[H|[H|[H|[H|[]]]]]]]; discriminate H.
Qed.

Lemma main_reports_parse_failure_witness :
  0 < line_number (sample_args 1) <= Z.of_nat (List.length sample_lines)
  /\ main broken_parser_world (sample_args 1)
     = ((opened "A.java" ++ resolving sample_code
           ++ [EvPrint "Error parsing code: parse failed"])%list,
        SysExit 1).
Proof.
  assert (Hgood : 0 < line_number (sample_args 1)
                  <= Z.of_nat (List.length sample_lines)) by (simpl; lia).
  split; [exact Hgood|].
  apply (main_reports_parse_failure broken_parser_world (sample_args 1)
           sample_code sample_lines (mkExn OtherException "parse failed")
           eq_refl eq_refl Hgood eq_refl).
Defined.

(** X12. What a run depends on: the [--lang-path] argument has no effect on
    a run of [main], and when the file cannot be read the run does not depend
    on the line number either, the file being read before the line number is
    looked at. *)
Theorem main_argument_dependence
        (w : World) (p : string) (L1 L2 : Z) (lp1 lp2 : option string) :
  main w (mkArgs p L1 lp1) = main w (mkArgs p L1 lp2)
  /\ (read_fails w p ->
      main w (mkArgs p L1 lp1) = main w (mkArgs p L2 lp2)).
Proof.
  split; [reflexivity|].
  intros (e & Hraise).
  destruct (read_file_raises w p e Hraise) as [tr Hr].
  unfold main. cbn [file_path]. rewrite Hr.
  destruct (exn_class_of e); reflexivity.
Qed.

Lemma main_argument_dependence_witness :
  read_fails missing_file_world "A.java"
  /\ main missing_file_world (mkArgs "A.java" 1 None)
     = main missing_file_world (mkArgs "A.java" 0 (Some "java.so")).
Proof.
  assert (Hf : read_fails missing_file_world "A.java").
  { exists (mkExn FileNotFoundError "No such file"). left. reflexivity. }
  split; [exact Hf|].
  apply (proj2 (main_argument_dependence missing_file_world "A.java" 1 0
                  None (Some "java.so"))), Hf.
Defined.
